(** * drgania: damped-oscillation analysis pipeline (src/index.tsx)

    A shallow embedding of the numeric core of [src/index.tsx]:
    [parseFileContent], [smoothSignal], [processSignal],
    [fitExponentialCurve] and the hooks of [App] that chain them, followed
    by the vocabulary of the specification and by the properties it states
    about the program.

    Modelling choices.
    - A JavaScript [number] is an IEEE 754 binary64 value: Rocq's primitive
      [float], whose [+ - * /], [abs] and comparisons are the processor's,
      NaN and the infinities included.
    - Array lengths, loop counters and sample indices, which the source also
      holds in [number]s, are integers below 2^53: they are modelled as
      [nat], or [Z] where the source can go negative, and converted with
      [JS.Z2F] where they meet floating-point arithmetic.  The smoothing
      window, an integer of the settings slider, is a [Z].
    - A JavaScript string is a [string] of code units below 256.
    - An array is a [list]; reading [a[i]] is [JS.get a i].  A loop that
      pushes onto an array is a [map], [flat_map] or [fold_left] over the
      indices or elements it visits; a loop with [break] is a recursive
      function that stops there.
    - The built-ins [parseFloat], [Math.log] and [Math.exp] are not code of
      this repository: they are parameters of the definitions that call
      them.  A decimal reader, [parseFloat_dec], instantiates [parseFloat]
      in the worked examples. *)

From Stdlib Require Import String Ascii ZArith List Bool Lia Floats Sorted.
Import ListNotations.

Set Warnings "-inexact-float".
Local Open Scope float_scope.

(** ** JavaScript numbers and arrays *)

Module JS.

(** An integer held in a [number], as a binary64 value (rounded to nearest
    even; exact below 2^53). *)
Definition Z2F (z : Z) : float :=
  SF2Prim (binary_normalize prec emax z 0%Z false).

Definition N2F (n : nat) : float := Z2F (Z.of_nat n).

(** [Math.floor] of a finite number, as an integer. *)
Definition floorZ (f : float) : Z :=
  match Prim2SF f with
  | S754_finite s m e => Z.shiftl (if s then Zneg m else Zpos m) e
  | _ => 0%Z
  end.

(** [a[i]]: an index past the end reads [undefined], which every
    arithmetic operation and comparison of the source treats as [NaN]. *)
Definition get (a : list float) (i : nat) : float := nth i a nan.

(** [Number.isFinite]. *)
Definition isFinite (x : float) : bool := is_finite x.

(** [a.slice(-n)] for an integer [n >= 0]: the last [n] elements, the
    whole array when it has fewer. *)
Definition sliceLast {A : Type} (n : nat) (a : list A) : list A :=
  skipn (length a - n) a.

(** Whitespace of [String.prototype.trim] and of the regular expression
    class [\s], among the code units below 256: TAB, LF, VT, FF, CR,
    SPACE and NBSP. *)
Definition isSpace (c : ascii) : bool :=
  let n := nat_of_ascii c in
  ((9 <=? n) && (n <=? 13) || (n =? 32) || (n =? 160))%nat.

Fixpoint trimStart (s : string) : string :=
  match s with
  | EmptyString => EmptyString
  | String c s' => if isSpace c then trimStart s' else s
  end.

Fixpoint trimEnd (s : string) : string :=
  match s with
  | EmptyString => EmptyString
  | String c s' =>
      match trimEnd s' with
      | EmptyString => if isSpace c then EmptyString else String c EmptyString
      | r => String c r
      end
  end.

Definition trim (s : string) : string := trimEnd (trimStart s).

(** [s.startsWith(c)] for a one-character [c]. *)
Definition startsWith (c : ascii) (s : string) : bool :=
  match s with
  | EmptyString => false
  | String d _ => Ascii.eqb d c
  end.

(** [s.replace(/a/g, b)] for single characters. *)
Fixpoint replaceAll (a b : ascii) (s : string) : string :=
  match s with
  | EmptyString => EmptyString
  | String c s' => String (if Ascii.eqb c a then b else c) (replaceAll a b s')
  end.

(** [s.split(sep)] for a one-character separator: always at least one
    piece. *)
Fixpoint split (sep : ascii) (s : string) : list string :=
  match s with
  | EmptyString => [EmptyString]
  | String c s' =>
      if Ascii.eqb c sep then EmptyString :: split sep s'
      else match split sep s' with
           | piece :: rest => String c piece :: rest
           | [] => [String c EmptyString]
           end
  end.

(** [s.split(/\s+/)]: the pieces between maximal runs of whitespace; a
    leading or trailing run leaves an empty piece at that end.  [inRun]
    says that the preceding character belonged to a run. *)
Fixpoint splitWsFrom (inRun : bool) (s : string) : list string :=
  match s with
  | EmptyString => [EmptyString]
  | String c s' =>
      if isSpace c then
        if inRun then splitWsFrom true s'
        else EmptyString :: splitWsFrom true s'
      else match splitWsFrom false s' with
           | piece :: rest => String c piece :: rest
           | [] => [String c EmptyString]
           end
  end.

Definition splitWs (s : string) : list string := splitWsFrom false s.

End JS.

(** ** A decimal reader for [parseFloat]

    ECMAScript's [parseFloat] reads the longest prefix of its argument (after
    leading whitespace) that is a decimal literal, [Infinity] included, and
    yields [NaN] when there is none.  [parseFloat_dec] does this for strings
    of code units below 256, rounding the decimal value to the nearest
    binary64 (ties to even). *)

Module Dec.

Definition isDigit (c : ascii) : bool :=
  let n := nat_of_ascii c in ((48 <=? n) && (n <=? 57))%nat.

Definition digitVal (c : ascii) : Z := Z.of_nat (nat_of_ascii c - 48).

(** The maximal run of digits at the head of [s]: its value continuing
    from [acc], its length, and what follows. *)
Fixpoint digits (acc : Z) (len : nat) (s : string) : Z * nat * string :=
  match s with
  | String c s' =>
      if isDigit c then digits (10 * acc + digitVal c) (S len) s'
      else (acc, len, s)
  | EmptyString => (acc, len, s)
  end.

(** The exponent part [e[+-]digits], 0 when [s] does not start with one. *)
Definition exponent (s : string) : Z :=
  match s with
  | String c s' =>
      if Ascii.eqb c "e" || Ascii.eqb c "E" then
        let '(neg, s'') :=
          match s' with
          | String d r =>
              if Ascii.eqb d "-" then (true, r)
              else if Ascii.eqb d "+" then (false, r) else (false, s')
          | EmptyString => (false, s')
          end in
        let '(v, len, _) := digits 0 0 s'' in
        match len with
        | O => 0%Z
        | _ => if neg then (- v)%Z else v
        end
      else 0%Z
  | EmptyString => 0%Z
  end.

(** [m * 10^e] rounded to the nearest binary64. *)
Definition scale10 (m e : Z) : spec_float :=
  match m with
  | Zpos p =>
      match e with
      | Zneg k =>
          SFdiv prec emax (S754_finite false p 0)
                (S754_finite false (Pos.pow 10 k) 0)
      | _ => binary_normalize prec emax (m * 10 ^ e) 0%Z false
      end
  | _ => S754_zero false
  end.

Definition unsignedLiteral (s : string) : float :=
  if String.prefix "Infinity" s then infinity
  else
    let '(ip, ilen, r1) := digits 0 0 s in
    let '(m, flen, r2) :=
      match r1 with
      | String c r =>
          if Ascii.eqb c "." then
            let '(m, flen, r2) := digits ip 0 r in
            match ilen, flen with
            | O, O => (ip, O, r1)
            | _, _ => (m, flen, r2)
            end
          else (ip, O, r1)
      | EmptyString => (ip, O, r1)
      end in
    match ilen, flen with
    | O, O => nan
    | _, _ => SF2Prim (scale10 m (exponent r2 - Z.of_nat flen))
    end.

End Dec.

Definition parseFloat_dec (s : string) : float :=
  match JS.trimStart s with
  | String c r =>
      if Ascii.eqb c "-" then - Dec.unsignedLiteral r
      else if Ascii.eqb c "+" then Dec.unsignedLiteral r
      else Dec.unsignedLiteral (String c r)
  | EmptyString => nan
  end.

(** ** Type definitions (src/index.tsx, lines 6-23) *)

Module DataPoint.
Record DataPoint := mk { time : float; voltage : float }.
End DataPoint.
Abbreviation DataPoint := DataPoint.DataPoint.

Module SignalMetrics.
Record SignalMetrics := mk {
  frequencyKhz : float;
  beta : float;
  lambda : float;
  periodUs : float;
  validCycles : nat
}.
End SignalMetrics.
Abbreviation SignalMetrics := SignalMetrics.SignalMetrics.

Module FitParams.
Record FitParams := mk { A : float; beta : float; C : float }.
End FitParams.
Abbreviation FitParams := FitParams.FitParams.

(** ** [parseFileContent] (lines 27-70) *)

Section Parser.

Variable parseFloat : string -> float.

Definition dquote : ascii := ascii_of_nat 34.
Definition squote : ascii := ascii_of_nat 39.

(** The [parts] of a line: what the body of the loop splits it into. *)
Definition lineParts (line : string) : list string :=
  JS.splitWs (JS.replaceAll "," "." (JS.trim line)).

(** The voltage of a row that passed the checks on its first two
    columns (lines 54-64). *)
Definition rowVoltage (parts : list string) (v1 : float) : float :=
  if (3 <=? length parts)%nat then
    let v2 := parseFloat (nth 2 parts EmptyString) in
    if JS.isFinite v2 && (abs v2 <? 1e30) then (v1 + v2) / 2 else v1
  else v1.

(** One iteration of the loop: [None] where the source [continue]s or
    falls through without a [push], [Some d] where it pushes [d]. *)
Definition parseLine (line : string) : option DataPoint :=
  let trimmed := JS.trim line in
  match trimmed with
  | EmptyString => None
  | _ =>
      if JS.startsWith dquote trimmed || JS.startsWith squote trimmed
      then None
      else
        let parts := lineParts line in
        if (2 <=? length parts)%nat then
          let t := parseFloat (nth 0 parts EmptyString) in
          let v1 := parseFloat (nth 1 parts EmptyString) in
          if negb (JS.isFinite t) || negb (JS.isFinite v1) then None
          else if 1e30 <? abs v1 then None
          else Some (DataPoint.mk t (rowVoltage parts v1))
        else None
  end.

Definition parseFileContent (content : string) : list DataPoint :=
  flat_map (fun line => match parseLine line with
                        | Some d => [d]
                        | None => []
                        end)
           (JS.split (ascii_of_nat 10) content).

End Parser.

(** ** [smoothSignal] (lines 73-86)

    [windowSize] is the integer of the smoothing slider.  [windowStart] and
    [windowEnd] are the [start] and [end] of the loop body, where
    [Math.floor(windowSize / 2)] is the integer quotient. *)

Definition windowStart (i : nat) (windowSize : Z) : nat :=
  Z.to_nat (Z.max 0 (Z.of_nat i - windowSize / 2)).

Definition windowEnd (len i : nat) (windowSize : Z) : nat :=
  Z.to_nat (Z.min (Z.of_nat len) (Z.of_nat i + windowSize / 2 + 1)).

(** The inner loop: [sum] after [j] has run over [start, end). *)
Definition windowSum (values : list float) (start end_ : nat) : float :=
  fold_left (fun sum j => sum + JS.get values j) (seq start (end_ - start)) 0.

Definition smoothSignal (values : list float) (windowSize : Z) : list float :=
  if (windowSize <=? 1)%Z then values
  else
    map (fun i =>
           let start := windowStart i windowSize in
           let end_ := windowEnd (length values) i windowSize in
           windowSum values start end_ / JS.N2F (end_ - start))
        (seq 0 (length values)).

(** ** [processSignal] (lines 88-212) *)

Module Crossing.
Record Crossing := mk { t : float; idx : nat }.
End Crossing.
Abbreviation Crossing := Crossing.Crossing.

Module Peak.
Record Peak := mk { x : float; y : float }.
End Peak.
Abbreviation Peak := Peak.Peak.

(** The object [processSignal] returns. *)
Module Processed.
Record Processed := mk {
  t : list float;
  u_raw : list float;
  u_smooth : list float;
  peaks : list Peak;
  zeroCrossings : list Crossing;
  meanVoltage : float;
  avgPeriodUs : float;
  isInverted : bool
}.
End Processed.
Abbreviation Processed := Processed.Processed.

(** [crossings[i]]; the source only reads it in range. *)
Definition getC (crossings : list Crossing) (i : nat) : Crossing :=
  nth i crossings (Crossing.mk nan 0).

(** Step 1: the time axis in microseconds, and the voltages, negated when
    [invert] is set. *)
Definition t_rawOf (rawData : list DataPoint) : list float :=
  map (fun d => DataPoint.time d * 1e6) rawData.

Definition u_originalOf (rawData : list DataPoint) (invert : bool)
    : list float :=
  let u_original := map DataPoint.voltage rawData in
  if invert then map (fun v => - v) u_original else u_original.

(** Step 3: [meanVoltage], the mean of the last 20% of the samples, of the
    last ten when that is fewer. *)
Definition tailMean (u_processed : list float) : float :=
  let tailSampleCount :=
    Z.max (JS.floorZ (JS.N2F (length u_processed) * 0.20)) 10 in
  let tailData := JS.sliceLast (Z.to_nat tailSampleCount) u_processed in
  fold_left (fun a b => a + b) tailData 0 / JS.N2F (length tailData).

(** Step 4: the body of the loop over [i], and the loop. *)
Definition crossingAt (t_raw u_processed : list float) (meanVoltage : float)
    (i : nat) : list Crossing :=
  if (JS.get u_processed i <=? meanVoltage)
     && (meanVoltage <? JS.get u_processed (i + 1))
  then
    let y1 := JS.get u_processed i in
    let y2 := JS.get u_processed (i + 1) in
    let t1 := JS.get t_raw i in
    let t2 := JS.get t_raw (i + 1) in
    let fraction := (meanVoltage - y1) / (y2 - y1) in
    let t_cross := t1 + fraction * (t2 - t1) in
    [Crossing.mk t_cross i]
  else [].

Definition findRawCrossings (t_raw u_processed : list float)
    (meanVoltage : float) : list Crossing :=
  flat_map (crossingAt t_raw u_processed meanVoltage)
           (seq 0 (length u_processed - 1)).

(** Step 5: period locking.  [withinTolerance] is the test of the loop
    body; [lockLoop] is the loop from [i = 2], [validCrossings] being its
    state and [rest] the raw crossings still to visit; [break] ends it. *)
Definition withinTolerance (T_ref periodTolerancePct : float)
    (lastValid current : Crossing) : bool :=
  let currentPeriod := Crossing.t current - Crossing.t lastValid in
  let deviation := abs (currentPeriod - T_ref) in
  let allowedDeviation := T_ref * periodTolerancePct in
  deviation <=? allowedDeviation.

Fixpoint lockLoop (T_ref periodTolerancePct : float)
    (validCrossings rest : list Crossing) : list Crossing :=
  match rest with
  | [] => validCrossings
  | current :: rest' =>
      let lastValid := getC validCrossings (length validCrossings - 1) in
      if withinTolerance T_ref periodTolerancePct lastValid current
      then lockLoop T_ref periodTolerancePct (validCrossings ++ [current]) rest'
      else validCrossings
  end.

Definition periodLock (rawCrossings : list Crossing)
    (periodTolerancePct : float) : list Crossing :=
  match rawCrossings with
  | c0 :: c1 :: rest =>
      let T_ref := Crossing.t c1 - Crossing.t c0 in
      lockLoop T_ref periodTolerancePct [c0; c1] rest
  | _ => []
  end.

(** Step 6: the scan for the maximum between two crossings, [maxVal] and
    [maxIdx] being its state, and the loop over the valid intervals. *)
Definition scanMax (u_processed : list float) (startIdx endIdx : nat)
    : float * Z :=
  fold_left (fun (st : float * Z) j =>
               let '(maxVal, maxIdx) := st in
               if maxVal <? JS.get u_processed j
               then (JS.get u_processed j, Z.of_nat j)
               else (maxVal, maxIdx))
            (seq startIdx (endIdx + 1 - startIdx))
            (neg_infinity, (-1)%Z).

Definition intervalPeak (t_raw u_processed : list float) (meanVoltage : float)
    (validCrossings : list Crossing) (i : nat) : list Peak :=
  let startIdx := Crossing.idx (getC validCrossings i) in
  let endIdx := Crossing.idx (getC validCrossings (i + 1)) in
  let '(maxVal, maxIdx) := scanMax u_processed startIdx endIdx in
  if negb (maxIdx =? -1)%Z && (meanVoltage <? maxVal)
  then [Peak.mk (JS.get t_raw (Z.to_nat maxIdx)) maxVal]
  else [].

Definition detectPeaks (t_raw u_processed : list float) (meanVoltage : float)
    (validCrossings : list Crossing) : list Peak :=
  if (2 <=? length validCrossings)%nat then
    flat_map (intervalPeak t_raw u_processed meanVoltage validCrossings)
             (seq 0 (length validCrossings - 1))
  else [].

(** Step 7. *)
Definition averagePeriod (validCrossings : list Crossing) : float :=
  if (2 <=? length validCrossings)%nat then
    let sumDiff :=
      fold_left (fun sumDiff i =>
                   sumDiff + (Crossing.t (getC validCrossings (i + 1))
                              - Crossing.t (getC validCrossings i)))
                (seq 0 (length validCrossings - 1)) 0 in
    sumDiff / JS.N2F (length validCrossings - 1)
  else 0.

(** Step 8: the time offset of the normalization. *)
Definition timeOffset (validCrossings : list Crossing) (t_raw : list float)
    : float :=
  match validCrossings with
  | c :: _ => Crossing.t c
  | [] => match t_raw with
          | t0 :: _ => t0
          | [] => 0
          end
  end.

(** The intermediate values of a run, as functions of its arguments. *)
Definition u_processedOf (rawData : list DataPoint) (smoothingWindow : Z)
    (invert : bool) : list float :=
  smoothSignal (u_originalOf rawData invert) smoothingWindow.

Definition meanVoltageOf (rawData : list DataPoint) (smoothingWindow : Z)
    (invert : bool) : float :=
  tailMean (u_processedOf rawData smoothingWindow invert).

Definition rawCrossingsOf (rawData : list DataPoint) (smoothingWindow : Z)
    (invert : bool) : list Crossing :=
  findRawCrossings (t_rawOf rawData)
                   (u_processedOf rawData smoothingWindow invert)
                   (meanVoltageOf rawData smoothingWindow invert).

Definition validCrossingsOf (rawData : list DataPoint) (smoothingWindow : Z)
    (periodTolerancePct : float) (invert : bool) : list Crossing :=
  periodLock (rawCrossingsOf rawData smoothingWindow invert) periodTolerancePct.

Definition peaksOf (rawData : list DataPoint) (smoothingWindow : Z)
    (periodTolerancePct : float) (invert : bool) : list Peak :=
  detectPeaks
    (t_rawOf rawData)
    (u_processedOf rawData smoothingWindow invert)
    (meanVoltageOf rawData smoothingWindow invert)
    (validCrossingsOf rawData smoothingWindow periodTolerancePct invert).

Definition processSignal (rawData : list DataPoint) (smoothingWindow : Z)
    (periodTolerancePct : float) (invert : bool) : option Processed :=
  match rawData with
  | [] => None
  | _ =>
      let t_raw := t_rawOf rawData in
      let u_original := u_originalOf rawData invert in
      let u_processed := u_processedOf rawData smoothingWindow invert in
      let meanVoltage := meanVoltageOf rawData smoothingWindow invert in
      let validCrossings :=
        validCrossingsOf rawData smoothingWindow periodTolerancePct invert in
      let peaks := peaksOf rawData smoothingWindow periodTolerancePct invert in
      let avgPeriodUs := averagePeriod validCrossings in
      let t_offset := timeOffset validCrossings t_raw in
      let u_offset := meanVoltage in
      let t_norm := map (fun t => t - t_offset) t_raw in
      let u_raw_norm := map (fun u => u - u_offset) u_original in
      let u_smooth_norm := map (fun u => u - u_offset) u_processed in
      let peaks_norm :=
        map (fun p => Peak.mk (Peak.x p - t_offset) (Peak.y p - u_offset))
            peaks in
      let crossings_norm :=
        map (fun c => Crossing.mk (Crossing.t c - t_offset) (Crossing.idx c))
            validCrossings in
      Some (Processed.mk t_norm u_raw_norm u_smooth_norm peaks_norm
                         crossings_norm 0 avgPeriodUs invert)
  end.

(** ** [fitExponentialCurve] (lines 214-247)

    [Math_log] and [Math_exp] stand for the built-ins [Math.log] and
    [Math.exp]. *)

Section Fit.

Variables Math_log Math_exp : float -> float.

(** The five accumulators of the loop over the peaks. *)
Record Sums := mkSums {
  sumT : float;
  sumLnY : float;
  sumTLnY : float;
  sumT2 : float;
  count : nat
}.

Definition accumulate (C : float) (s : Sums) (p : Peak) : Sums :=
  if C <? Peak.y p then
    let lnY := Math_log (Peak.y p - C) in
    mkSums (sumT s + Peak.x p)
           (sumLnY s + lnY)
           (sumTLnY s + Peak.x p * lnY)
           (sumT2 s + Peak.x p * Peak.x p)
           (S (count s))
  else s.

Definition fitExponentialCurve (peaks : list Peak) (meanVoltage : float)
    : option FitParams :=
  if (length peaks <? 2)%nat then None
  else
    let C := meanVoltage in
    let s := fold_left (accumulate C) peaks (mkSums 0 0 0 0 0) in
    if (count s <? 2)%nat then None
    else
      let denominator := JS.N2F (count s) * sumT2 s - sumT s * sumT s in
      if denominator =? 0 then None
      else
        let beta :=
          (JS.N2F (count s) * sumTLnY s - sumT s * sumLnY s) / denominator in
        let lnA := (sumLnY s - beta * sumT s) / JS.N2F (count s) in
        let A := Math_exp lnA in
        Some (FitParams.mk A beta C).

End Fit.

(** ** The hooks of [App] (lines 251-318) *)

Section App.

Variables Math_log Math_exp : float -> float.
Variable parseFloat : string -> float.

(** The metrics block of the [fitResults] hook (lines 274-288). *)
Definition deriveMetrics (fit : option FitParams) (avgPeriodUs : float)
    (peaks : list Peak) : option SignalMetrics :=
  match fit with
  | Some fit =>
      if 0 <? avgPeriodUs then
        let f_hz := 1 / (avgPeriodUs * 1e-6) in
        let lambda := abs (FitParams.beta fit) * avgPeriodUs in
        let betaSeconds := lambda / (avgPeriodUs * 1e-6) in
        Some (SignalMetrics.mk (f_hz / 1000) betaSeconds lambda avgPeriodUs
                               (length peaks))
      else None
  | None => None
  end.

(** The [fitResults] hook (lines 267-291): [{ fit, metrics }] or [null]. *)
Definition fitResults (processedData : option Processed)
    : option (option FitParams * option SignalMetrics) :=
  match processedData with
  | None => None
  | Some pd =>
      if (length (Processed.peaks pd) <? 2)%nat then None
      else
        let peaks := Processed.peaks pd in
        let meanVoltage := Processed.meanVoltage pd in
        let avgPeriodUs := Processed.avgPeriodUs pd in
        let fit := fitExponentialCurve Math_log Math_exp peaks meanVoltage in
        Some (fit, deriveMetrics fit avgPeriodUs peaks)
  end.

(** The state of [App] that the numeric core reads and writes. *)
Record AppState := mkApp {
  data : option (list DataPoint);
  fileName : string;
  error : option string;
  smoothingWindow : Z;
  periodTolerance : float;
  isInverted : bool
}.

Definition initialState : AppState :=
  mkApp None EmptyString None 10 10 false.

(** The [processedData] hook (lines 262-265). *)
Definition processedData (st : AppState) : option Processed :=
  match data st with
  | None => None
  | Some d =>
      processSignal d (smoothingWindow st) (periodTolerance st / 100)
                    (isInverted st)
  end.

(** [handleFileUpload] (lines 294-318), from the file's name and text to
    the state after [reader.onload]. *)
Definition handleFileUpload (name text : string) (st : AppState) : AppState :=
  let parsed := parseFileContent parseFloat text in
  match parsed with
  | [] =>
      mkApp None name
            (Some
               "Nie znaleziono poprawnych danych numerycznych w pliku."%string)
            (smoothingWindow st) (periodTolerance st) (isInverted st)
  | _ =>
      mkApp (Some parsed) name None
            (smoothingWindow st) (periodTolerance st) false
  end.

End App.

(** * Vocabulary of the specification

    The notions the properties below are stated with. *)

(** ** Period locking, smoothing and fitting *)

(** The accepted run after the crossing [prev], read off the
    specification: crossings are taken one by one while each is within
    tolerance of the one accepted before it. *)
Fixpoint acceptedRun (T_ref periodTolerancePct : float) (prev : Crossing)
    (rest : list Crossing) : list Crossing :=
  match rest with
  | [] => []
  | current :: rest' =>
      if withinTolerance T_ref periodTolerancePct prev current
      then current :: acceptedRun T_ref periodTolerancePct current rest'
      else []
  end.

(** The crossings of the specification's example: only their times matter
    to period locking. *)
Definition crossingsAt (times : list float) : list Crossing :=
  map (fun t => Crossing.mk t 0) times.

(** The samples [values[start .. end)], as the array method [slice] would
    return them. *)
Definition slice (values : list float) (start end_ : nat) : list float :=
  firstn (end_ - start) (skipn start values).

(** The mean of a window as the source computes it: the samples added up
    from 0, left to right, divided by their number. *)
Definition windowMean (window : list float) : float :=
  fold_left (fun sum v => sum + v) window 0 / JS.N2F (length window).

(** The qualifying peaks, those with [y > C], and the sums of the
    least-squares formulas over them, each added up from 0 in the order
    of the peaks. *)
Definition qualifying (C : float) (peaks : list Peak) : list Peak :=
  filter (fun p => C <? Peak.y p) peaks.

Definition lnY (Math_log : float -> float) (C : float) (p : Peak) : float :=
  Math_log (Peak.y p - C).

Definition sigma (term : Peak -> float) (peaks : list Peak) : float :=
  fold_left (fun sum p => sum + term p) peaks 0.

(** ** Parsing *)

(** What the development assumes of [parseFloat] where it matters: a string
    whose first character is a quote has no numeric prefix, so it reads as
    NaN. *)
Definition rejectsQuoted (parseFloat : string -> float) : Prop :=
  forall s, JS.startsWith dquote s || JS.startsWith squote s = true ->
            JS.isFinite (parseFloat s) = false.

Definition newline : ascii := ascii_of_nat 10.

(** The clipping filter as the specification states it: a row is dropped
    as soon as one of its voltage columns, the second or the third, has
    magnitude above 1e30. *)
Definition clipping_filter_as_stated : Prop :=
  forall (parseFloat : string -> float) (line : string) (k : nat),
    (k = 1 \/ k = 2)%nat ->
    (k < length (lineParts line))%nat ->
    (1e30 <? abs (parseFloat (nth k (lineParts line) EmptyString))) = true ->
    parseLine parseFloat line = None.

(** ** Worked traces *)

Definition trace (samples : list (float * float)) : list DataPoint :=
  map (fun s => DataPoint.mk (fst s) (snd s)) samples.


(** A decaying oscillation that settles at 1 V. *)
Definition ringing : list DataPoint :=
  trace [(0, 0); (1, 2); (2, 0); (3, 1.6); (4, 0.2); (5, 1.4); (6, 0.4);
         (7, 1.3); (8, 1); (9, 1); (10, 1); (11, 1); (12, 1); (13, 1);
         (14, 1); (15, 1); (16, 1); (17, 1)].

(** Four samples whose times, finite and strictly increasing in seconds,
    exceed the binary64 range once multiplied by 1e6. *)
Definition overflowing : list DataPoint :=
  trace [(1e303, 0); (2e303, 1); (3e303, 0); (4e303, 1)].

(** Fourteen finite samples, some 285 years into a capture, where the
    microsecond axis has a spacing of 2: the signal rises through its
    baseline of 1 V between samples 0 and 1, and again at sample 2. *)
Definition rounding : list DataPoint :=
  trace [(0.000003, -1e20); (9007199254.740998, 2); (9007199254.7409992, 1);
         (9007199254.7410011, 2); (9007199255, 1); (9007199256, 1);
         (9007199257, 1); (9007199258, 1); (9007199259, 1); (9007199260, 1);
         (9007199261, 1); (9007199262, 1); (9007199263, 1); (9007199264, 1)].

(** The text of a file that parses to [overflowing]. *)
Definition overflowingText : string :=
  ("1e303 0" ++ String newline
     ("2e303 1" ++ String newline
        ("3e303 0" ++ String newline "4e303 1")))%string.

(** ** The claims that fail as stated *)

(** The claim of the specification: the [C] of a fit is the un-normalized
    baseline estimate of the run. *)
Definition fit_offset_as_stated : Prop :=
  forall (Math_log Math_exp : float -> float) rawData smoothingWindow
         periodTolerancePct invert fit metrics,
    fitResults Math_log Math_exp
      (processSignal rawData smoothingWindow periodTolerancePct invert)
    = Some (Some fit, metrics) ->
    FitParams.C fit = meanVoltageOf rawData smoothingWindow invert.


(** ** Order of the crossings *)


(** A series whose every element is below the next one. *)
Definition increasing (a : list float) : Prop :=
  forall i, (S i < length a)%nat -> (JS.get a i <? JS.get a (S i)) = true.



(** ** Rows of the parser *)

(** A line of which the parser makes nothing: blank, or a header. *)
Definition skippedLine (line : string) : Prop :=
  JS.trim line = EmptyString
  \/ JS.startsWith dquote (JS.trim line) || JS.startsWith squote (JS.trim line)
     = true.

(** * Properties *)

(** ** Facts of binary64 arithmetic

    Derived from the specification of the primitive operations
    ([FloatAxioms]) over [spec_float]. *)

Module FloatFacts.

Ltac cmp_cases :=
  repeat match goal with
    | H : context [Pos.compare_cont Eq ?a ?b] |- _ =>
        change (Pos.compare_cont Eq a b) with (Pos.compare a b) in H
    | |- context [Pos.compare_cont Eq ?a ?b] =>
        change (Pos.compare_cont Eq a b) with (Pos.compare a b)
    end;
  repeat match goal with
    | H : context [Z.compare ?a ?b] |- _ =>
        destruct (Z.compare_spec a b); simpl in H; try discriminate H
    | H : context [Pos.compare ?a ?b] |- _ =>
        destruct (Pos.compare_spec a b); simpl in H; try discriminate H
    end;
  repeat match goal with
    | |- context [Z.compare ?a ?b] => destruct (Z.compare_spec a b); simpl
    | |- context [Pos.compare ?a ?b] => destruct (Pos.compare_spec a b); simpl
    end;
  try reflexivity; try discriminate; try lia.

Ltac sf_cases x :=
  let s := fresh "s" in
  let m := fresh "m" in
  let e := fresh "e" in
  destruct x as [s|s| |s m e]; try destruct s.

Ltac sf_order2 x y :=
  unfold SFltb, SFleb; sf_cases x; sf_cases y; simpl; intros H;
  try discriminate H; try reflexivity; cmp_cases.

Ltac sf_order3 x y z :=
  unfold SFltb, SFleb; sf_cases x; sf_cases y; simpl; intros H;
  try discriminate H; sf_cases z; simpl; intros H';
  try discriminate H'; try reflexivity; cmp_cases.


Lemma SFleb_ltb_false (x y : spec_float) :
  SFleb x y = true -> SFltb y x = false.
Proof. sf_order2 x y. Qed.

Lemma SFltb_ltb_false (x y : spec_float) :
  SFltb x y = true -> SFltb y x = false.
Proof. sf_order2 x y. Qed.




Lemma SFleb_trans (x y z : spec_float) :
  SFleb x y = true -> SFleb y z = true -> SFleb x z = true.
Proof. sf_order3 x y z. Qed.


(** [x <= y] excludes [y < x]. *)
Lemma leb_ltb_false (x y : float) : (x <=? y) = true -> (y <? x) = false.
Proof. rewrite ltb_spec, leb_spec. apply SFleb_ltb_false. Qed.

Lemma ltb_ltb_false (x y : float) : (x <? y) = true -> (y <? x) = false.
Proof. rewrite !ltb_spec. apply SFltb_ltb_false. Qed.




Lemma leb_trans (x y z : float) :
  (x <=? y) = true -> (y <=? z) = true -> (x <=? z) = true.
Proof. rewrite !leb_spec. apply SFleb_trans. Qed.

(** A finite number is neither NaN nor an infinity. *)
Lemma Prim2SF_finite (x : float) :
  is_finite x = true ->
  Prim2SF x <> S754_nan /\ forall s, Prim2SF x <> S754_infinity s.
Proof.
  unfold is_finite, Prim2SF. intros H.
  destruct (is_nan x); [discriminate|].
  destruct (is_infinity x); [discriminate|].
  destruct (is_zero x); [split; [|intros s]; discriminate|].
  destruct (Z.frexp x) as [r e]. destruct (shr_fexp _ _ _ _ _) as [sh e'].
  destruct (shr_m sh); split; try intros s0; discriminate.
Qed.

Lemma SFsub_diag (x : spec_float) :
  x <> S754_nan -> (forall s, x <> S754_infinity s) ->
  SFsub prec emax x x = S754_zero false.
Proof.
  intros Hnan Hinf. destruct x as [s|s| |s m e].
  - destruct s; reflexivity.
  - now elim (Hinf s).
  - now elim Hnan.
  - unfold SFsub. rewrite Z.sub_diag. reflexivity.
Qed.

(** [x - x] is [+0] for every finite [x] (and NaN otherwise). *)
Lemma sub_diag (x : float) : is_finite x = true -> x - x = 0.
Proof.
  intros H. destruct (Prim2SF_finite x H) as [Hnan Hinf].
  rewrite <- (SF2Prim_Prim2SF (x - x)), sub_spec.
  unfold SF64sub. rewrite SFsub_diag by assumption. reflexivity.
Qed.

(** Numbers that compare unequal are distinct. *)
Lemma neq_of_eqb (x y : float) : (x =? y) = false -> (x =? x) = true -> x <> y.
Proof. intros Hxy Hxx Heq. rewrite <- Heq, Hxx in Hxy. discriminate. Qed.

End FloatFacts.

(** ** Period locking *)

Section PeriodLocking.

Variables T_ref periodTolerancePct : float.

Lemma getC_last (valid : list Crossing) (c : Crossing) :
  getC (valid ++ [c]) (length (valid ++ [c]) - 1) = c.
Proof.
  unfold getC. rewrite length_app. simpl.
  replace (length valid + 1 - 1)%nat with (length valid) by lia.
  rewrite app_nth2, Nat.sub_diag by lia. reflexivity.
Qed.

(** The loop appends the accepted run to its state. *)
Lemma lockLoop_acceptedRun (rest valid : list Crossing) :
  lockLoop T_ref periodTolerancePct valid rest
  = valid ++ acceptedRun T_ref periodTolerancePct
               (getC valid (length valid - 1)) rest.
Proof.
  revert valid. induction rest as [|current rest' IH]; intros valid; simpl.
  - now rewrite app_nil_r.
  - destruct (withinTolerance _ _ _ current).
    + rewrite IH, getC_last, <- app_assoc. reflexivity.
    + now rewrite app_nil_r.
Qed.

(** The accepted run is the longest prefix in which every crossing is
    within tolerance of its predecessor. *)
Lemma acceptedRun_prefix (rest : list Crossing) (prev : Crossing) :
  exists j,
    (j <= length rest)%nat
    /\ acceptedRun T_ref periodTolerancePct prev rest = firstn j rest
    /\ (forall i, (i < j)%nat ->
          withinTolerance T_ref periodTolerancePct
            (getC (prev :: rest) i) (getC (prev :: rest) (S i)) = true)
    /\ ((j < length rest)%nat ->
          withinTolerance T_ref periodTolerancePct
            (getC (prev :: rest) j) (getC (prev :: rest) (S j)) = false).
Proof.
  revert prev. induction rest as [|current rest' IH]; intros prev.
  - exists 0%nat. simpl. repeat split; intros; lia.
  - simpl. destruct (withinTolerance _ _ prev current) eqn:Hw.
    + destruct (IH current) as (j & Hj & Hrun & Hin & Hout).
      exists (S j). repeat split.
      * simpl. lia.
      * simpl. now rewrite Hrun.
      * intros [|i] Hi; [exact Hw|]. apply (Hin i). lia.
      * intros Hlt. apply Hout. simpl in Hlt. lia.
    + exists 0%nat. repeat split; try (simpl; lia).
      intros _. exact Hw.
Qed.

End PeriodLocking.

(** [C1] Period locking.  With fewer than two raw crossings the valid set
    is empty.  Otherwise the valid set is the first [k] raw crossings for
    some [k >= 2]: the first two are always accepted and fix
    [T_ref = crossing[1].t - crossing[0].t]; every later accepted crossing
    [i] has a period against the crossing accepted before it, [i - 1], that
    deviates from [T_ref] by at most [p * T_ref]; and the run stops for good
    at the first crossing [k] for which the test [deviation <= p * T_ref]
    fails.  For the times [0, 10, 20, 31, 42] and a tolerance of 5%, the
    valid set is the first three crossings. *)
Theorem period_locking (rawCrossings : list Crossing) (p : float) :
  ((length rawCrossings < 2)%nat -> periodLock rawCrossings p = [])
  /\ ((2 <= length rawCrossings)%nat ->
      let T_ref :=
        Crossing.t (getC rawCrossings 1) - Crossing.t (getC rawCrossings 0) in
      let deviation i :=
        abs (Crossing.t (getC rawCrossings i)
             - Crossing.t (getC rawCrossings (i - 1)) - T_ref) in
      exists k,
        (2 <= k <= length rawCrossings)%nat
        /\ periodLock rawCrossings p = firstn k rawCrossings
        /\ (forall i, (2 <= i < k)%nat -> (deviation i <=? T_ref * p) = true)
        /\ ((k < length rawCrossings)%nat ->
            (deviation k <=? T_ref * p) = false))
  /\ periodLock (crossingsAt [0; 10; 20; 31; 42]) (5 / 100)
     = firstn 3 (crossingsAt [0; 10; 20; 31; 42]).
Proof.
  split; [|split].
  - destruct rawCrossings as [|c0 [|c1 rest]]; simpl; intros;
      try reflexivity; lia.
  - destruct rawCrossings as [|c0 [|c1 rest]]; simpl; try lia. intros _.
    destruct (acceptedRun_prefix (Crossing.t c1 - Crossing.t c0) p rest c1)
      as (j & Hj & Hrun & Hin & Hout).
    exists (S (S j)). repeat split; try lia.
    + rewrite lockLoop_acceptedRun.
      change (getC [c0; c1] (length [c0; c1] - 1)) with c1.
      rewrite Hrun. reflexivity.
    + intros i Hi. destruct i as [|[|i]]; try lia.
      specialize (Hin i ltac:(lia)). unfold withinTolerance in Hin.
      simpl. exact Hin.
    + intros Hlt. specialize (Hout ltac:(lia)). exact Hout.
  - vm_compute. reflexivity.
Qed.

(** A deviation equal to the tolerance keeps the crossing: with the times
    [0, 10, 20, 30.5, 40] and 5%, the deviations at 30.5 and at 40 are both
    0.5, the tolerance, and all five crossings are valid. *)
Example period_locking_tie :
  periodLock (crossingsAt [0; 10; 20; 30.5; 40]) (5 / 100)
  = crossingsAt [0; 10; 20; 30.5; 40].
Proof. reflexivity. Qed.

(** ** Smoothing *)

(** A loop that pushes [f i] for [i] from 0 leaves [f i] at index [i]. *)
Lemma nth_map_seq {A : Type} (f : nat -> A) (n i : nat) (d : A) :
  (i < n)%nat -> nth i (map f (seq 0 n)) d = f i.
Proof.
  intros Hi. rewrite nth_indep with (d' := f 0%nat)
    by (now rewrite length_map, length_seq).
  rewrite map_nth, seq_nth by exact Hi. reflexivity.
Qed.

Section Smoothing.

Variable values : list float.

Lemma skipn_get (a : nat) :
  (a < length values)%nat ->
  skipn a values = JS.get values a :: skipn (S a) values.
Proof.
  unfold JS.get. revert a. induction values as [|v l IH]; intros a Ha.
  - simpl in Ha. lia.
  - destruct a as [|a]; [reflexivity|].
    simpl in Ha. simpl skipn at 1. rewrite (IH a) by lia. reflexivity.
Qed.

(** The loop over the indices adds up the slice, left to right. *)
Lemma index_loop_slice (n a : nat) (acc : float) :
  (a + n <= length values)%nat ->
  fold_left (fun sum j => sum + JS.get values j) (seq a n) acc
  = fold_left (fun sum v => sum + v) (firstn n (skipn a values)) acc.
Proof.
  revert a acc. induction n as [|n IH]; intros a acc Hn; [reflexivity|].
  rewrite skipn_get by lia. simpl. apply IH. lia.
Qed.

Lemma windowSum_slice (start end_ : nat) :
  (end_ <= length values)%nat ->
  windowSum values start end_
  = fold_left (fun sum v => sum + v) (slice values start end_) 0.
Proof.
  intros He. unfold windowSum, slice.
  destruct (Nat.le_gt_cases start end_) as [Hle|Hgt].
  - apply index_loop_slice. lia.
  - replace (end_ - start)%nat with 0%nat by lia. reflexivity.
Qed.

Lemma window_bounds (i : nat) (windowSize : Z) :
  (1 <= windowSize)%Z -> (i < length values)%nat ->
  (windowStart i windowSize <= i
   < windowEnd (length values) i windowSize)%nat
  /\ (windowEnd (length values) i windowSize <= length values)%nat.
Proof.
  intros HW Hi. unfold windowStart, windowEnd.
  assert (0 <= windowSize / 2)%Z by (apply Z.div_pos; lia). lia.
Qed.

Lemma smoothSignal_get (i : nat) (windowSize : Z) :
  (2 <= windowSize)%Z -> (i < length values)%nat ->
  JS.get (smoothSignal values windowSize) i
  = windowSum values (windowStart i windowSize)
              (windowEnd (length values) i windowSize)
    / JS.N2F (windowEnd (length values) i windowSize
              - windowStart i windowSize).
Proof.
  intros HW Hi. unfold smoothSignal, JS.get.
  destruct (Z.leb_spec windowSize 1); [lia|].
  rewrite nth_map_seq by exact Hi. reflexivity.
Qed.

End Smoothing.

(** [C9] Smoothing totality and shape.  For a window [W >= 1] the smoothed
    series has the length of the input.  For each index [i] the averaging
    window is [[i - W/2, i + W/2]] clamped to [[0, L)]: it contains [i], so
    its size, the divisor, is at least 1, and every index it reads is below
    [L].  For [W >= 2] output [i] is the mean of the samples of that window;
    for [W = 1] the window is the sample [i] alone and the input is returned
    unchanged. *)
Theorem smoothing_shape (values : list float) (W : Z) :
  (1 <= W)%Z ->
  length (smoothSignal values W) = length values
  /\ (forall i, (i < length values)%nat ->
        let L := length values in
        let start := windowStart i W in
        let end_ := windowEnd L i W in
        Z.of_nat start = Z.max 0 (Z.of_nat i - W / 2)
        /\ Z.of_nat end_ = Z.min (Z.of_nat L) (Z.of_nat i + W / 2 + 1)
        /\ (start <= i < end_)%nat /\ (end_ <= L)%nat
        /\ (1 <= end_ - start)%nat
        /\ (forall j, In j (seq start (end_ - start)) -> (j < L)%nat)
        /\ length (slice values start end_) = (end_ - start)%nat
        /\ ((2 <= W)%Z ->
            JS.get (smoothSignal values W) i
            = windowMean (slice values start end_))
        /\ (W = 1%Z ->
            slice values start end_ = [JS.get values i]
            /\ JS.get (smoothSignal values W) i = JS.get values i))
  /\ smoothSignal values 1 = values.
Proof.
  intros HW. split; [|split].
  - unfold smoothSignal. destruct (W <=? 1)%Z; [reflexivity|].
    now rewrite length_map, length_seq.
  - intros i Hi L start end_.
    pose proof (window_bounds values i W HW Hi) as Hb.
    fold L start end_ in Hb.
    assert (Hdiv : (0 <= W / 2)%Z) by (apply Z.div_pos; lia).
    assert (Hlen : length (slice values start end_) = (end_ - start)%nat).
    { unfold slice. rewrite length_firstn, length_skipn. fold L. lia. }
    split. { unfold start, windowStart. lia. }
    split. { unfold end_, windowEnd. fold L. lia. }
    split. { lia. }
    split. { lia. }
    split. { lia. }
    split. { intros j Hj. apply in_seq in Hj. lia. }
    split. { exact Hlen. }
    split.
    + intros H2. rewrite smoothSignal_get by assumption.
      fold L start end_. unfold windowMean.
      rewrite Hlen, windowSum_slice by (fold L; lia). reflexivity.
    + intros HW1.
      assert (Hhalf : (W / 2 = 0)%Z) by (rewrite HW1; reflexivity).
      assert (Hs : start = i) by (unfold start, windowStart; lia).
      assert (He : end_ = S i) by (unfold end_, windowEnd; fold L; lia).
      rewrite Hs, He, HW1. unfold slice.
      replace (S i - i)%nat with 1%nat by lia.
      rewrite skipn_get by exact Hi. split; reflexivity.
  - reflexivity.
Qed.

(** A window of 3 on five samples. *)
Lemma smoothing_shape_witness :
  length (smoothSignal [1; 2; 3; 4; 5] 3) = length [1; 2; 3; 4; 5]
  /\ JS.get (smoothSignal [1; 2; 3; 4; 5] 3) 0 = windowMean [1; 2]
  /\ smoothSignal [1; 2; 3; 4; 5] 1 = [1; 2; 3; 4; 5].
Proof.
  destruct (smoothing_shape [1; 2; 3; 4; 5] 3 ltac:(lia)) as (Hlen & Hi & Hid).
  split; [exact Hlen|]. split; [|exact Hid].
  destruct (Hi 0%nat ltac:(simpl; lia))
    as (_ & _ & _ & _ & _ & _ & _ & Hmean & _).
  exact (Hmean ltac:(lia)).
Defined.

(** ** The envelope fitter *)

Section FitContract.

Variable Math_log : float -> float.
Variable C : float.

(** The loop of the fitter visits every peak but accumulates the
    qualifying ones only. *)
Lemma accumulate_qualifying (peaks : list Peak) (s : Sums) :
  let q := qualifying C peaks in
  fold_left (accumulate Math_log C) peaks s
  = mkSums
      (fold_left (fun sum p => sum + Peak.x p) q (sumT s))
      (fold_left (fun sum p => sum + lnY Math_log C p) q (sumLnY s))
      (fold_left (fun sum p => sum + Peak.x p * lnY Math_log C p) q
                 (sumTLnY s))
      (fold_left (fun sum p => sum + Peak.x p * Peak.x p) q (sumT2 s))
      (count s + length q).
Proof.
  revert s. induction peaks as [|p peaks IH]; intros s; simpl.
  - destruct s; simpl. now rewrite Nat.add_0_r.
  - simpl in IH. rewrite IH. unfold accumulate.
    destruct (C <? Peak.y p); simpl; [|reflexivity].
    f_equal. lia.
Qed.

Lemma qualifying_length (peaks : list Peak) :
  (length (qualifying C peaks) <= length peaks)%nat.
Proof. apply filter_length_le. Qed.

End FitContract.

(** [C4] Envelope fitter contract.  Over the qualifying peaks [q] (those
    with [y > C]), with [n] their number, [lnY = ln (y - C)] and
    [denominator = n * St2 - St * St]: the fitter returns no fit exactly
    when [n < 2] or the denominator equals 0, and otherwise it returns
    [beta = (n * StlnY - St * SlnY) / denominator],
    [A = exp ((SlnY - beta * St) / n)] and the given [C]; in that case the
    denominator it divides by is not 0 and [n] is at least 2. *)
Theorem fit_contract (Math_log Math_exp : float -> float)
    (peaks : list Peak) (C : float) :
  let q := qualifying C peaks in
  let n := JS.N2F (length q) in
  let St := sigma Peak.x q in
  let SlnY := sigma (lnY Math_log C) q in
  let StlnY := sigma (fun p => Peak.x p * lnY Math_log C p) q in
  let St2 := sigma (fun p => Peak.x p * Peak.x p) q in
  let denominator := n * St2 - St * St in
  let beta := (n * StlnY - St * SlnY) / denominator in
  let A := Math_exp ((SlnY - beta * St) / n) in
  (fitExponentialCurve Math_log Math_exp peaks C = None
   <-> ((length q < 2)%nat \/ (denominator =? 0) = true))
  /\ (fitExponentialCurve Math_log Math_exp peaks C <> None ->
      fitExponentialCurve Math_log Math_exp peaks C
      = Some (FitParams.mk A beta C)
      /\ (denominator =? 0) = false /\ (2 <= length q)%nat).
Proof.
  intros q n St SlnY StlnY St2 denominator beta A.
  assert (Hfit : fitExponentialCurve Math_log Math_exp peaks C
                 = if (length q <? 2)%nat || (denominator =? 0) then None
                   else Some (FitParams.mk A beta C)).
  { unfold fitExponentialCurve.
    pose proof (qualifying_length C peaks) as Hq. fold q in Hq.
    rewrite accumulate_qualifying. simpl. fold q.
    destruct (Nat.ltb_spec (length peaks) 2) as [Hp|Hp].
    - destruct (Nat.ltb_spec (length q) 2); [reflexivity|lia].
    - destruct (length q <? 2)%nat; reflexivity. }
  rewrite Hfit. split.
  - destruct (Nat.ltb_spec (length q) 2) as [Hn|Hn]; simpl.
    + split; auto.
    + destruct (denominator =? 0); split; auto; try discriminate.
      intros [H|H]; [lia|discriminate].
  - destruct (Nat.ltb_spec (length q) 2) as [Hn|Hn]; simpl.
    + intros H. now elim H.
    + destruct (denominator =? 0); intros H; [now elim H|auto].
Qed.

(** ** Metric derivation *)



(** The metrics of the [fitResults] hook are those of its fit, of the
    average period and of the peaks of the processed data. *)
Lemma fitResults_metrics (Math_log Math_exp : float -> float)
    (pd : Processed) (fit : option FitParams) (metrics : option SignalMetrics) :
  fitResults Math_log Math_exp (Some pd) = Some (fit, metrics) ->
  metrics = deriveMetrics fit (Processed.avgPeriodUs pd) (Processed.peaks pd).
Proof.
  unfold fitResults. destruct (_ <? 2)%nat; [discriminate|].
  intros H. injection H as <- <-. reflexivity.
Qed.

(** ** The parser *)

Section ParserFacts.

Variable parseFloat : string -> float.

Lemma parseFileContent_In (content : string) (d : DataPoint) :
  In d (parseFileContent parseFloat content)
  <-> exists line, In line (JS.split (ascii_of_nat 10) content)
                   /\ parseLine parseFloat line = Some d.
Proof.
  unfold parseFileContent. rewrite in_flat_map. split.
  - intros (line & Hin & Hd). exists line. split; [exact Hin|].
    destruct (parseLine parseFloat line) as [d'|]; simpl in Hd.
    + destruct Hd as [->|[]]. reflexivity.
    + destruct Hd.
  - intros (line & Hin & Hd). exists line. split; [exact Hin|].
    rewrite Hd. now left.
Qed.

(** An empty trimmed line splits into one (empty) part. *)
Lemma lineParts_blank (line : string) :
  JS.trim line = EmptyString -> length (lineParts line) = 1%nat.
Proof. unfold lineParts. intros ->. reflexivity. Qed.

(** A line that starts with a quote has a first part that starts with it. *)
Lemma lineParts_quoted (line : string) :
  JS.startsWith dquote (JS.trim line) || JS.startsWith squote (JS.trim line)
  = true ->
  JS.startsWith dquote (nth 0 (lineParts line) EmptyString)
  || JS.startsWith squote (nth 0 (lineParts line) EmptyString) = true.
Proof.
  unfold lineParts. destruct (JS.trim line) as [|c r]; [discriminate|].
  simpl JS.startsWith at 1 2. intros Hq.
  assert (Hc : c = dquote \/ c = squote).
  { apply orb_true_iff in Hq. destruct Hq as [H|H];
      apply Ascii.eqb_eq in H; auto. }
  unfold JS.splitWs.
  destruct Hc as [-> | ->]; simpl;
    destruct (JS.splitWsFrom false _); reflexivity.
Qed.

(** A row whose first two columns pass the checks and whose third column is
    not a finite number below 1e30 in magnitude is pushed with the second
    column as its voltage. *)
Lemma parseLine_third_rejected (line : string) :
  rejectsQuoted parseFloat ->
  let parts := lineParts line in
  let t := parseFloat (nth 0 parts EmptyString) in
  let v1 := parseFloat (nth 1 parts EmptyString) in
  let v2 := parseFloat (nth 2 parts EmptyString) in
  (3 <= length parts)%nat ->
  JS.isFinite t = true -> JS.isFinite v1 = true ->
  (1e30 <? abs v1) = false ->
  JS.isFinite v2 && (abs v2 <? 1e30) = false ->
  parseLine parseFloat line = Some (DataPoint.mk t v1).
Proof.
  intros Hpf parts t v1 v2 Hlen Ht Hv1 Hclip Hv2.
  unfold parseLine.
  destruct (JS.trim line) as [|c r] eqn:Htrim.
  - pose proof (lineParts_blank line Htrim) as H1. fold parts in H1. lia.
  - destruct (JS.startsWith dquote (String c r)
              || JS.startsWith squote (String c r)) eqn:Hq.
    + rewrite <- Htrim in Hq. apply lineParts_quoted, Hpf in Hq.
      fold parts t in Hq. congruence.
    + fold parts t v1.
      destruct (Nat.leb_spec 2 (length parts)); [|lia].
      rewrite Ht, Hv1, Hclip. simpl.
      unfold rowVoltage. fold parts v2.
      destruct (Nat.leb_spec 3 (length parts)); [|lia].
      rewrite Hv2. reflexivity.
Qed.

End ParserFacts.

(** The decimal reader finds no number behind a quote. *)
Lemma parseFloat_dec_rejectsQuoted : rejectsQuoted parseFloat_dec.
Proof.
  intros [|c r]; [discriminate|]. simpl JS.startsWith. intros Hq.
  assert (Hc : c = dquote \/ c = squote).
  { apply orb_true_iff in Hq. destruct Hq as [H|H];
      apply Ascii.eqb_eq in H; auto. }
  destruct Hc as [-> | ->]; reflexivity.
Qed.

(** [C10] Parser fallback.  For a line with at least three parts whose
    first two parse to finite numbers, the voltage having magnitude at most
    1e30: if the third part does not parse to a finite number of magnitude
    strictly below 1e30, the row is kept and its voltage is the value of the
    second part alone. *)
Theorem third_column_fallback (parseFloat : string -> float) (line : string) :
  rejectsQuoted parseFloat ->
  let parts := lineParts line in
  let t := parseFloat (nth 0 parts EmptyString) in
  let v1 := parseFloat (nth 1 parts EmptyString) in
  let v2 := parseFloat (nth 2 parts EmptyString) in
  (3 <= length parts)%nat ->
  JS.isFinite t = true -> JS.isFinite v1 = true ->
  (abs v1 <=? 1e30) = true ->
  JS.isFinite v2 && (abs v2 <? 1e30) = false ->
  parseLine parseFloat line = Some (DataPoint.mk t v1)
  /\ forall content, In line (JS.split newline content) ->
       In (DataPoint.mk t v1) (parseFileContent parseFloat content).
Proof.
  intros Hpf parts t v1 v2 Hlen Ht Hv1 Hmag Hv2.
  assert (Hrow : parseLine parseFloat line = Some (DataPoint.mk t v1)).
  { apply parseLine_third_rejected; try assumption.
    apply FloatFacts.leb_ltb_false. exact Hmag. }
  split; [exact Hrow|].
  intros content Hin. apply parseFileContent_In. now exists line.
Qed.

(** The row [4 5 1e31]: the third column is finite but not below 1e30. *)
Lemma third_column_fallback_witness :
  parseLine parseFloat_dec "4 5 1e31" = Some (DataPoint.mk 4 5)
  /\ parseFileContent parseFloat_dec "4 5 1e31" = [DataPoint.mk 4 5].
Proof.
  destruct (third_column_fallback parseFloat_dec "4 5 1e31"
              parseFloat_dec_rejectsQuoted
              ltac:(vm_compute; lia) ltac:(reflexivity) ltac:(reflexivity)
              ltac:(reflexivity) ltac:(reflexivity)) as [Hrow _].
  split; [exact Hrow|reflexivity].
Defined.

(** The row [0 1 2e308]: its third column reads as [Infinity], and the row
    is kept with voltage 1. *)
Lemma clipped_third_column_kept :
  parseFileContent parseFloat_dec "0 1 2e308" = [DataPoint.mk 0 1]
  /\ parseFloat_dec "2e308" = infinity
  /\ (1e30 <? abs (parseFloat_dec "2e308")) = true.
Proof. repeat split. Qed.

(** [C2], as stated, fails on the row [0 1 2e308]. *)
Lemma clipping_filter_counterexample : ~ clipping_filter_as_stated.
Proof.
  intros Hclaim.
  specialize (Hclaim parseFloat_dec "0 1 2e308"%string 2%nat
                     (or_intror eq_refl)
                     ltac:(vm_compute; lia) ltac:(reflexivity)).
  vm_compute in Hclaim. discriminate Hclaim.
Qed.

(** [C2], amended.  A row whose second column, the first voltage, has
    magnitude above 1e30 is excluded whatever its number of columns.  A
    magnitude above 1e30 in the third column does not exclude the row: when
    the first two columns pass the checks, the row is kept with the second
    column as its voltage. *)
Theorem clipping_filter (parseFloat : string -> float) (line : string) :
  let parts := lineParts line in
  let t := parseFloat (nth 0 parts EmptyString) in
  let v1 := parseFloat (nth 1 parts EmptyString) in
  let v2 := parseFloat (nth 2 parts EmptyString) in
  ((1e30 <? abs v1) = true -> parseLine parseFloat line = None)
  /\ (rejectsQuoted parseFloat ->
      (3 <= length parts)%nat ->
      JS.isFinite t = true -> JS.isFinite v1 = true ->
      (abs v1 <=? 1e30) = true ->
      (1e30 <? abs v2) = true ->
      parseLine parseFloat line = Some (DataPoint.mk t v1)).
Proof.
  intros parts t v1 v2. split.
  - intros Hclip.
    unfold parseLine. destruct (JS.trim line); [reflexivity|].
    destruct (_ || _); [reflexivity|]. fold parts t v1.
    destruct (2 <=? length parts)%nat; [|reflexivity].
    destruct (negb _ || negb _); [reflexivity|].
    now rewrite Hclip.
  - intros Hpf Hlen Ht Hv1 Hmag Hv2.
    apply parseLine_third_rejected; try assumption.
    + apply FloatFacts.leb_ltb_false. exact Hmag.
    + apply FloatFacts.ltb_ltb_false in Hv2. fold parts v2.
      rewrite Hv2. apply andb_false_r.
Qed.

(** The rows [3 2e31] and [3 2e31 7] are dropped; [0 1 2e308] is kept. *)
Lemma clipping_filter_witness :
  parseLine parseFloat_dec "3 2e31" = None
  /\ parseLine parseFloat_dec "3 2e31 7" = None
  /\ parseLine parseFloat_dec "0 1 2e308" = Some (DataPoint.mk 0 1).
Proof.
  split; [|split].
  - exact (proj1 (clipping_filter parseFloat_dec "3 2e31") ltac:(reflexivity)).
  - exact (proj1 (clipping_filter parseFloat_dec "3 2e31 7")
                 ltac:(reflexivity)).
  - exact (proj2 (clipping_filter parseFloat_dec "0 1 2e308")
                 parseFloat_dec_rejectsQuoted
                 ltac:(vm_compute; lia) ltac:(reflexivity) ltac:(reflexivity)
                 ltac:(reflexivity) ltac:(reflexivity)).
Defined.

(** ** Empty input *)

(** [C8] Empty-input short-circuit.  When the parser produces no sample,
    the upload handler stores no data and reports the error, so the
    processing hook yields an absent result and, for any [Math.log] and
    [Math.exp], so does the fitting hook: no smoothed series, baseline,
    crossing, peak, fit or metric is produced.  [processSignal] itself
    returns the absent result on an empty trace, whatever its parameters. *)
Theorem empty_input_short_circuit (parseFloat : string -> float)
    (name text : string) (st : AppState) :
  parseFileContent parseFloat text = [] ->
  let st' := handleFileUpload parseFloat name text st in
  data st' = None
  /\ error st'
     = Some "Nie znaleziono poprawnych danych numerycznych w pliku."%string
  /\ processedData st' = None
  /\ (forall Math_log Math_exp,
        fitResults Math_log Math_exp (processedData st') = None)
  /\ (forall smoothingWindow periodTolerancePct invert,
        processSignal [] smoothingWindow periodTolerancePct invert = None).
Proof.
  intros Hempty st'. unfold st', handleFileUpload. rewrite Hempty.
  repeat split.
Qed.

(** A file of headers and text only. *)
Lemma empty_input_short_circuit_witness :
  processedData
    (handleFileUpload parseFloat_dec "trace.txt" "'time' 'volt'" initialState)
  = None.
Proof.
  exact (proj1 (proj2 (proj2
           (empty_input_short_circuit parseFloat_dec "trace.txt"
              "'time' 'volt'" initialState ltac:(reflexivity))))).
Defined.

(** ** The offset of the fit *)

(** On [ringing] the baseline estimate is 1 V, three peaks are found and a
    fit is returned; its [C] is 0. *)
Lemma ringing_run (Math_log Math_exp : float -> float) :
  meanVoltageOf ringing 1 false = 1
  /\ exists A beta metrics,
       fitResults Math_log Math_exp (processSignal ringing 1 (10 / 100) false)
       = Some (Some (FitParams.mk A beta 0), metrics).
Proof.
  split; [reflexivity|].
  do 3 eexists. vm_compute. reflexivity.
Qed.

(** [C3], as stated, fails on [ringing]. *)
Lemma fit_offset_counterexample : ~ fit_offset_as_stated.
Proof.
  intros Hclaim.
  destruct (ringing_run (fun x => x) (fun x => x))
    as (Hmean & A & beta & metrics & Hfit).
  specialize (Hclaim _ _ _ _ _ _ _ _ Hfit). rewrite Hmean in Hclaim.
  simpl in Hclaim. revert Hclaim.
  apply FloatFacts.neq_of_eqb; reflexivity.
Qed.

(** The fitter returns the offset it was given. *)
Lemma fitExponentialCurve_C (Math_log Math_exp : float -> float)
    (peaks : list Peak) (meanVoltage : float) (fit : FitParams) :
  fitExponentialCurve Math_log Math_exp peaks meanVoltage = Some fit ->
  FitParams.C fit = meanVoltage.
Proof.
  unfold fitExponentialCurve.
  destruct (length peaks <? 2)%nat; [discriminate|].
  destruct (count _ <? 2)%nat; [discriminate|].
  destruct (_ =? 0); [discriminate|].
  intros H. injection H as <-. reflexivity.
Qed.

(** What [processSignal] returns on a trace that is not empty. *)
Lemma processSignal_Some (rawData : list DataPoint) (smoothingWindow : Z)
    (periodTolerancePct : float) (invert : bool) (r : Processed) :
  processSignal rawData smoothingWindow periodTolerancePct invert = Some r ->
  let t_raw := t_rawOf rawData in
  let validCrossings :=
    validCrossingsOf rawData smoothingWindow periodTolerancePct invert in
  let t_offset := timeOffset validCrossings t_raw in
  let u_offset := meanVoltageOf rawData smoothingWindow invert in
  r = Processed.mk
        (map (fun t => t - t_offset) t_raw)
        (map (fun u => u - u_offset) (u_originalOf rawData invert))
        (map (fun u => u - u_offset)
             (u_processedOf rawData smoothingWindow invert))
        (map (fun p => Peak.mk (Peak.x p - t_offset) (Peak.y p - u_offset))
             (peaksOf rawData smoothingWindow periodTolerancePct invert))
        (map (fun c => Crossing.mk (Crossing.t c - t_offset) (Crossing.idx c))
             validCrossings)
        0 (averagePeriod validCrossings) invert.
Proof.
  unfold processSignal. destruct rawData as [|d rest]; [discriminate|].
  intros H. injection H as <-. reflexivity.
Qed.

(** [C3], amended.  The [C] of a fit is the offset handed to the fitter,
    fixed rather than fitted.  In a pipeline run that offset is the
    normalized baseline, the literal 0, not the un-normalized estimate: the
    peaks the fit is computed from have already been shifted down by that
    estimate. *)
Theorem fit_offset (Math_log Math_exp : float -> float) :
  (forall peaks meanVoltage fit,
      fitExponentialCurve Math_log Math_exp peaks meanVoltage = Some fit ->
      FitParams.C fit = meanVoltage)
  /\ (forall rawData smoothingWindow periodTolerancePct invert fit metrics,
        fitResults Math_log Math_exp
          (processSignal rawData smoothingWindow periodTolerancePct invert)
        = Some (Some fit, metrics) ->
        FitParams.C fit = 0
        /\ exists pd,
             processSignal rawData smoothingWindow periodTolerancePct invert
             = Some pd
             /\ Processed.meanVoltage pd = 0
             /\ Some fit = fitExponentialCurve Math_log Math_exp
                             (Processed.peaks pd) 0
             /\ map Peak.y (Processed.peaks pd)
                = map (fun p => Peak.y p
                                - meanVoltageOf rawData smoothingWindow invert)
                      (peaksOf rawData smoothingWindow periodTolerancePct
                               invert)).
Proof.
  split; [apply fitExponentialCurve_C|].
  intros rawData W p inv fit metrics Hres.
  destruct (processSignal rawData W p inv) as [pd|] eqn:Hpd;
    [|discriminate Hres].
  pose proof (processSignal_Some _ _ _ _ _ Hpd) as Hshape. simpl in Hshape.
  assert (Hmean : Processed.meanVoltage pd = 0)
    by (rewrite Hshape; reflexivity).
  unfold fitResults in Hres.
  destruct (length (Processed.peaks pd) <? 2)%nat; [discriminate Hres|].
  rewrite Hmean in Hres. injection Hres as Hfit _.
  split; [exact (fitExponentialCurve_C _ _ _ _ _ Hfit)|].
  exists pd. repeat split; try assumption; [now rewrite Hfit|].
  rewrite Hshape. simpl. rewrite map_map. reflexivity.
Qed.

(** The run on [ringing], whose baseline estimate is 1 V.  Any functions do
    for [Math.log] and [Math.exp] here: whether a fit is returned, and its
    [C], do not depend on them. *)
Lemma fit_offset_witness :
  match fitResults (fun x => x) (fun x => x)
          (processSignal ringing 1 (10 / 100) false) with
  | Some (Some fit, _) =>
      FitParams.C fit = 0 /\ meanVoltageOf ringing 1 false = 1
  | _ => False
  end.
Proof.
  destruct (fitResults (fun x => x) (fun x => x)
              (processSignal ringing 1 (10 / 100) false))
    as [[[fit|] metrics]|] eqn:Hres;
    try (vm_compute in Hres; discriminate Hres).
  split; [|reflexivity].
  exact (proj1 (proj2 (fit_offset (fun x => x) (fun x => x))
                      _ _ _ _ _ _ Hres)).
Defined.

(** ** Normalization *)

Lemma overflowing_parsed :
  parseFileContent parseFloat_dec overflowingText = overflowing.
Proof. reflexivity. Qed.

(** On [overflowing] the time axis in microseconds is infinite, the two
    crossings are interpolated to NaN, and so is the first normalized
    crossing. *)
Lemma overflowing_run :
  t_rawOf overflowing = [infinity; infinity; infinity; infinity]
  /\ validCrossingsOf overflowing 1 (10 / 100) false
     = [Crossing.mk nan 0; Crossing.mk nan 2]
  /\ option_map Processed.zeroCrossings
       (processSignal overflowing 1 (10 / 100) false)
     = Some [Crossing.mk nan 0; Crossing.mk nan 2].
Proof. repeat split. Qed.




(** ** Order of the crossings *)





Section RawCrossings.

Variables t_raw u_processed : list float.
Variable meanVoltage : float.







End RawCrossings.




(** Overflow is not needed: on [rounding] every number is finite and both
    the sample times and the microsecond axis strictly increase, but the
    first crossing is interpolated from sample 0 with a fraction that rounds
    to 1 and a sum that rounds up to the time of sample 2, where the second
    crossing lies. *)
Lemma rounding_run :
  increasing (map DataPoint.time rounding)
  /\ increasing (t_rawOf rounding)
  /\ validCrossingsOf rounding 1 (10 / 100) false
     = [Crossing.mk 9007199254741000 0; Crossing.mk 9007199254741000 2].
Proof.
  split; [|split]; [| |reflexivity];
    intros i Hi; change (S i < 14)%nat in Hi;
    do 13 (destruct i as [|i]; [reflexivity|]); lia.
Qed.



(** * Further properties of the program *)

(** ** The parser, line by line *)

Lemma split_nonempty (sep : ascii) (s : string) : JS.split sep s <> [].
Proof.
  destruct s as [|c s]; simpl; [discriminate|].
  destruct (Ascii.eqb c sep); [discriminate|].
  destruct (JS.split sep s); discriminate.
Qed.

Lemma split_append (sep : ascii) (a b : string) :
  JS.split sep (a ++ String sep b)%string = JS.split sep a ++ JS.split sep b.
Proof.
  induction a as [|c a IH]; simpl.
  - now rewrite Ascii.eqb_refl.
  - destruct (Ascii.eqb c sep); [now rewrite IH|].
    rewrite IH. pose proof (split_nonempty sep a) as Hne.
    destruct (JS.split sep a) as [|piece rest]; [now elim Hne|reflexivity].
Qed.

Lemma parseFileContent_append (parseFloat : string -> float) (a b : string) :
  parseFileContent parseFloat (a ++ String newline b)%string
  = parseFileContent parseFloat a ++ parseFileContent parseFloat b.
Proof.
  unfold parseFileContent. fold newline.
  rewrite split_append, flat_map_app. reflexivity.
Qed.

(** [X1] The parser works line by line and keeps the order of the file:
    the samples of two texts joined by a newline are the samples of the
    first followed by the samples of the second, and no text yields more
    samples than it has lines. *)
Theorem parse_line_by_line (parseFloat : string -> float) (a b : string) :
  parseFileContent parseFloat (a ++ String newline b)%string
  = parseFileContent parseFloat a ++ parseFileContent parseFloat b
  /\ (length (parseFileContent parseFloat a)
      <= length (JS.split newline a))%nat.
Proof.
  split; [apply parseFileContent_append|].
  unfold parseFileContent. fold newline.
  - induction (JS.split newline a) as [|line lines IH]; simpl; [lia|].
    rewrite length_app. destruct (parseLine parseFloat line); simpl; lia.
Qed.

(** ** Decimal commas *)

Section Commas.

Let dot (s : string) : string := JS.replaceAll "," "." s.

Lemma isSpace_dot (c : ascii) :
  JS.isSpace (if Ascii.eqb c "," then "."%char else c) = JS.isSpace c.
Proof.
  destruct (Ascii.eqb c ",") eqn:Hc; [|reflexivity].
  apply Ascii.eqb_eq in Hc. subst c. reflexivity.
Qed.

Lemma replaceAll_idempotent (s : string) : dot (dot s) = dot s.
Proof.
  unfold dot. induction s as [|c s IH]; simpl; [reflexivity|].
  rewrite IH. f_equal.
  destruct (Ascii.eqb c ",") eqn:Hc; [reflexivity|]. now rewrite Hc.
Qed.

Lemma trimStart_dot (s : string) : JS.trimStart (dot s) = dot (JS.trimStart s).
Proof.
  unfold dot. induction s as [|c s IH]; simpl; [reflexivity|].
  rewrite isSpace_dot. destruct (JS.isSpace c); [exact IH|reflexivity].
Qed.

Lemma trimEnd_dot (s : string) : JS.trimEnd (dot s) = dot (JS.trimEnd s).
Proof.
  unfold dot. induction s as [|c s IH]; simpl; [reflexivity|].
  rewrite IH, isSpace_dot.
  destruct (JS.trimEnd s) as [|d r]; simpl.
  - destruct (JS.isSpace c); reflexivity.
  - reflexivity.
Qed.

Lemma trim_dot (s : string) : JS.trim (dot s) = dot (JS.trim s).
Proof. unfold JS.trim. now rewrite trimStart_dot, trimEnd_dot. Qed.

Lemma startsWith_quote_dot (s : string) :
  JS.startsWith dquote (dot s) || JS.startsWith squote (dot s)
  = JS.startsWith dquote s || JS.startsWith squote s.
Proof.
  destruct s as [|c s]; [reflexivity|]. unfold dot. simpl.
  destruct (Ascii.eqb c ",") eqn:Hc; [|reflexivity].
  apply Ascii.eqb_eq in Hc. subst c. reflexivity.
Qed.

Lemma lineParts_dot (line : string) : lineParts (dot line) = lineParts line.
Proof.
  unfold lineParts. rewrite trim_dot. fold (dot (dot (JS.trim line))).
  now rewrite replaceAll_idempotent.
Qed.

Lemma parseLine_dot (parseFloat : string -> float) (line : string) :
  parseLine parseFloat (dot line) = parseLine parseFloat line.
Proof.
  unfold parseLine. rewrite lineParts_dot, trim_dot.
  rewrite startsWith_quote_dot.
  destruct (JS.trim line); reflexivity.
Qed.

Lemma split_dot (s : string) :
  JS.split newline (dot s) = map dot (JS.split newline s).
Proof.
  unfold dot. induction s as [|c s IH]; simpl; [reflexivity|].
  destruct (Ascii.eqb c ",") eqn:Hc.
  - apply Ascii.eqb_eq in Hc. subst c. simpl.
    rewrite IH. destruct (JS.split newline s); reflexivity.
  - destruct (Ascii.eqb c newline); rewrite IH; [reflexivity|].
    destruct (JS.split newline s); simpl; now rewrite Hc.
Qed.

End Commas.

(** [X2] Decimal commas.  Writing the numbers of a file with decimal commas
    or with decimal points gives the same samples: replacing every comma of
    the text by a dot does not change the result of the parser. *)
Theorem parse_decimal_comma (parseFloat : string -> float) (content : string) :
  parseFileContent parseFloat (JS.replaceAll "," "." content)
  = parseFileContent parseFloat content.
Proof.
  unfold parseFileContent. fold newline. rewrite split_dot.
  induction (JS.split newline content) as [|line lines IH]; [reflexivity|].
  simpl. rewrite parseLine_dot, IH. reflexivity.
Qed.

(** ** Whitespace around a line *)

Lemma trimEnd_idempotent (s : string) : JS.trimEnd (JS.trimEnd s) = JS.trimEnd s.
Proof.
  induction s as [|c s IH]; simpl; [reflexivity|].
  destruct (JS.trimEnd s) as [|d r] eqn:Hs.
  - destruct (JS.isSpace c) eqn:Hc; simpl; [reflexivity|now rewrite Hc].
  - simpl JS.trimEnd at 1. simpl in IH. rewrite IH. reflexivity.
Qed.

Lemma trimStart_head (s : string) :
  match JS.trimStart s with
  | EmptyString => True
  | String c _ => JS.isSpace c = false
  end.
Proof.
  induction s as [|c s IH]; simpl; [exact I|].
  destruct (JS.isSpace c) eqn:Hc; [exact IH|exact Hc].
Qed.

Lemma trimEnd_head (c : ascii) (s : string) :
  JS.isSpace c = false -> exists r, JS.trimEnd (String c s) = String c r.
Proof.
  intros Hc. simpl. destruct (JS.trimEnd s) as [|d r].
  - rewrite Hc. now exists EmptyString.
  - now exists (String d r).
Qed.

Lemma trim_idempotent (s : string) : JS.trim (JS.trim s) = JS.trim s.
Proof.
  unfold JS.trim. pose proof (trimStart_head s) as Hhead.
  destruct (JS.trimStart s) as [|c t]; [reflexivity|].
  destruct (trimEnd_head c t Hhead) as [r Hr]. rewrite Hr.
  simpl JS.trimStart. rewrite Hhead, <- Hr. apply trimEnd_idempotent.
Qed.

Lemma trimEnd_append_space (c : ascii) (s : string) :
  JS.isSpace c = true ->
  JS.trimEnd (s ++ String c EmptyString)%string = JS.trimEnd s.
Proof.
  intros Hc. induction s as [|d s IH]; simpl.
  - now rewrite Hc.
  - now rewrite IH.
Qed.

Lemma trim_append_space (c : ascii) (s : string) :
  JS.isSpace c = true ->
  JS.trim (s ++ String c EmptyString)%string = JS.trim s.
Proof.
  intros Hc. unfold JS.trim. induction s as [|d s IH]; simpl.
  - now rewrite Hc.
  - destruct (JS.isSpace d); [exact IH|].
    change (JS.trimEnd (String d s ++ String c EmptyString)%string
            = JS.trimEnd (String d s)).
    now apply trimEnd_append_space.
Qed.

(** A line is parsed through its trimmed form only. *)
Lemma parseLine_trim_ext (parseFloat : string -> float) (a b : string) :
  JS.trim a = JS.trim b -> parseLine parseFloat a = parseLine parseFloat b.
Proof. intros H. unfold parseLine, lineParts. now rewrite H. Qed.

(** [str] with [c] appended to its last line. *)
Lemma split_append_char (sep c : ascii) (s : string) :
  Ascii.eqb c sep = false ->
  exists lines last,
    JS.split sep s = lines ++ [last]
    /\ JS.split sep (s ++ String c EmptyString)%string
       = lines ++ [(last ++ String c EmptyString)%string].
Proof.
  intros Hc. induction s as [|d s (lines & last & Hs & Hsc)]; simpl.
  - rewrite Hc. now exists [], EmptyString.
  - rewrite Hs, Hsc. destruct (Ascii.eqb d sep).
    + now exists (EmptyString :: lines), last.
    + destruct lines as [|l lines]; simpl.
      * now exists [], (String d last).
      * now exists (String d l :: lines), last.
Qed.

(** [X3] Whitespace around a line does not matter.  A line gives the same
    row as its trimmed form, so a whitespace character added in front of it
    or behind it changes nothing; in particular a file with CR LF line ends
    gives the same samples as the file with LF line ends. *)
Theorem parse_ignores_padding (parseFloat : string -> float) (line : string) :
  parseLine parseFloat (JS.trim line) = parseLine parseFloat line
  /\ (forall c, JS.isSpace c = true ->
        parseLine parseFloat (String c line) = parseLine parseFloat line
        /\ parseLine parseFloat (line ++ String c EmptyString)%string
           = parseLine parseFloat line)
  /\ (forall a b,
        parseFileContent parseFloat
          (a ++ String (ascii_of_nat 13) (String newline b))%string
        = parseFileContent parseFloat (a ++ String newline b)%string).
Proof.
  split; [|split].
  - apply parseLine_trim_ext, trim_idempotent.
  - intros c Hc. split; apply parseLine_trim_ext.
    + unfold JS.trim. simpl. now rewrite Hc.
    + now apply trim_append_space.
  - intros a b.
    assert (Hcr : parseFileContent parseFloat
                    (a ++ String (ascii_of_nat 13) EmptyString)%string
                  = parseFileContent parseFloat a).
    { destruct (split_append_char newline (ascii_of_nat 13) a eq_refl)
        as (lines & last & Hs & Hsc).
      unfold parseFileContent. fold newline. rewrite Hs, Hsc.
      rewrite !flat_map_app. simpl.
      rewrite (parseLine_trim_ext parseFloat _ last); [reflexivity|].
      now apply trim_append_space. }
    replace (a ++ String (ascii_of_nat 13) (String newline b))%string
      with ((a ++ String (ascii_of_nat 13) EmptyString)
              ++ String newline b)%string.
    + rewrite !parseFileContent_append, Hcr. reflexivity.
    + clear Hcr. induction a as [|d a IH]; simpl; [reflexivity|].
      now rewrite IH.
Qed.

(** ** Rows and samples *)

Section Rows.

Variable parseFloat : string -> float.

(** What a pushed row says of its line. *)
Lemma parseLine_Some (line : string) (d : DataPoint) :
  parseLine parseFloat line = Some d ->
  let parts := lineParts line in
  let t := parseFloat (nth 0 parts EmptyString) in
  let v1 := parseFloat (nth 1 parts EmptyString) in
  ~ skippedLine line
  /\ (2 <= length parts)%nat
  /\ JS.isFinite t = true /\ JS.isFinite v1 = true
  /\ (1e30 <? abs v1) = false
  /\ d = DataPoint.mk t (rowVoltage parseFloat parts v1).
Proof.
  intros Hd parts t v1. unfold parseLine in Hd. unfold skippedLine.
  destruct (JS.trim line) as [|c r]; [discriminate|].
  destruct (JS.startsWith dquote (String c r)
            || JS.startsWith squote (String c r)); [discriminate|].
  fold parts t v1 in Hd.
  destruct (Nat.leb_spec 2 (length parts)); [|discriminate].
  destruct (JS.isFinite t); [|discriminate].
  destruct (JS.isFinite v1); [|discriminate]. simpl in Hd.
  destruct (1e30 <? abs v1); [discriminate|].
  injection Hd as <-. repeat split; auto.
  intros [Hblank|Hquote]; discriminate.
Qed.

(** A data line whose first two columns pass the checks is pushed. *)
Lemma parseLine_data (line : string) :
  rejectsQuoted parseFloat ->
  let parts := lineParts line in
  let t := parseFloat (nth 0 parts EmptyString) in
  let v1 := parseFloat (nth 1 parts EmptyString) in
  (2 <= length parts)%nat ->
  JS.isFinite t = true -> JS.isFinite v1 = true ->
  (1e30 <? abs v1) = false ->
  parseLine parseFloat line
  = Some (DataPoint.mk t (rowVoltage parseFloat parts v1)).
Proof.
  intros Hpf parts t v1 Hlen Ht Hv1 Hclip. unfold parseLine.
  destruct (JS.trim line) as [|c r] eqn:Htrim.
  - pose proof (lineParts_blank line Htrim) as H1. fold parts in H1. lia.
  - destruct (JS.startsWith dquote (String c r)
              || JS.startsWith squote (String c r)) eqn:Hq.
    + rewrite <- Htrim in Hq. apply lineParts_quoted, Hpf in Hq.
      fold parts t in Hq. congruence.
    + fold parts t v1.
      destruct (Nat.leb_spec 2 (length parts)); [|lia].
      rewrite Ht, Hv1, Hclip. reflexivity.
Qed.

End Rows.

(** [X4] Every sample comes from a data line.  A sample of the result was
    pushed for a line of the file that is neither blank nor a header and
    has at least two parts; its time is the first part's value and is
    finite; the second part's value is finite with magnitude not above
    1e30; and its voltage is either that value or its mean with the third
    part's value, the latter only when the third part is a finite number of
    magnitude below 1e30. *)
Theorem parse_samples_sound (parseFloat : string -> float) (content : string)
    (d : DataPoint) :
  In d (parseFileContent parseFloat content) ->
  exists line,
    In line (JS.split newline content)
    /\ ~ skippedLine line
    /\ let parts := lineParts line in
       let v1 := parseFloat (nth 1 parts EmptyString) in
       let v2 := parseFloat (nth 2 parts EmptyString) in
       (2 <= length parts)%nat
       /\ DataPoint.time d = parseFloat (nth 0 parts EmptyString)
       /\ JS.isFinite (DataPoint.time d) = true
       /\ JS.isFinite v1 = true /\ (1e30 <? abs v1) = false
       /\ (DataPoint.voltage d = v1
           \/ ((3 <= length parts)%nat
               /\ JS.isFinite v2 = true /\ (abs v2 <? 1e30) = true
               /\ DataPoint.voltage d = (v1 + v2) / 2)).
Proof.
  intros Hin. apply parseFileContent_In in Hin.
  destruct Hin as (line & Hline & Hd). exists line.
  apply parseLine_Some in Hd.
  destruct Hd as (Hskip & Hlen & Ht & Hv1 & Hclip & ->).
  split; [exact Hline|]. split; [exact Hskip|].
  simpl. repeat split; try assumption.
  unfold rowVoltage.
  destruct (Nat.leb_spec 3 (length (lineParts line))); [|now left].
  destruct (JS.isFinite _ && _) eqn:Hv2; [|now left].
  apply andb_true_iff in Hv2. destruct Hv2 as [Hfin Hmag].
  right. repeat split; assumption.
Qed.

(** The sample of the file [1,5 2,5 3,5]. *)
Lemma parse_samples_sound_witness :
  exists line,
    In line (JS.split newline "1,5 2,5 3,5")
    /\ DataPoint.time (DataPoint.mk 1.5 3)
       = parseFloat_dec (nth 0 (lineParts line) EmptyString).
Proof.
  destruct (parse_samples_sound parseFloat_dec "1,5 2,5 3,5"
              (DataPoint.mk 1.5 3) ltac:(now left))
    as (line & Hline & _ & _ & Ht & _).
  exists line. split; [exact Hline|exact Ht].
Defined.

(** [X5] Envelope rows.  A line with at least three parts whose first two
    pass the checks and whose third is a finite number of magnitude below
    1e30 is pushed with the mean of the second and third values as its
    voltage. *)
Theorem parse_envelope_row (parseFloat : string -> float) (line : string) :
  rejectsQuoted parseFloat ->
  let parts := lineParts line in
  let t := parseFloat (nth 0 parts EmptyString) in
  let v1 := parseFloat (nth 1 parts EmptyString) in
  let v2 := parseFloat (nth 2 parts EmptyString) in
  (3 <= length parts)%nat ->
  JS.isFinite t = true -> JS.isFinite v1 = true ->
  (abs v1 <=? 1e30) = true ->
  JS.isFinite v2 = true -> (abs v2 <? 1e30) = true ->
  parseLine parseFloat line = Some (DataPoint.mk t ((v1 + v2) / 2)).
Proof.
  intros Hpf parts t v1 v2 Hlen Ht Hv1 Hmag Hv2 Hv2mag.
  assert (Hclip : (1e30 <? abs v1) = false)
    by (apply FloatFacts.leb_ltb_false; exact Hmag).
  assert (Hlen2 : (2 <= length parts)%nat) by lia.
  rewrite (parseLine_data parseFloat line Hpf Hlen2 Ht Hv1 Hclip).
  unfold rowVoltage. fold parts v1 v2.
  destruct (Nat.leb_spec 3 (length parts)); [|lia].
  now rewrite Hv2, Hv2mag.
Qed.

(** The row [0 1.0 3.0] has voltage 2. *)
Lemma parse_envelope_row_witness :
  parseLine parseFloat_dec "0 1.0 3.0" = Some (DataPoint.mk 0 2).
Proof.
  exact (parse_envelope_row parseFloat_dec "0 1.0 3.0"
           parseFloat_dec_rejectsQuoted
           ltac:(vm_compute; lia) ltac:(reflexivity) ltac:(reflexivity)
           ltac:(reflexivity) ltac:(reflexivity) ltac:(reflexivity)).
Defined.

(** ** The width of the smoothing window *)

(** The smoother reads its window size through [windowSize / 2] only. *)
Lemma smoothSignal_half (values : list float) (W W' : Z) :
  (2 <= W)%Z -> (2 <= W')%Z -> (W / 2 = W' / 2)%Z ->
  smoothSignal values W = smoothSignal values W'.
Proof.
  intros HW HW' Hhalf. unfold smoothSignal, windowStart, windowEnd.
  destruct (Z.leb_spec W 1); [lia|]. destruct (Z.leb_spec W' 1); [lia|].
  now rewrite Hhalf.
Qed.

(** [X6] The width of the smoothing window.  For a window size [W >= 2]
    the window of sample [i] never holds more than [2 * (W / 2) + 1]
    samples and holds exactly that many away from the ends of the series,
    so an even size [W] averages [W + 1] samples and smooths exactly as
    [W + 1] does. *)
Theorem smoothing_window_width (values : list float) (W : Z) :
  (2 <= W)%Z ->
  (forall i, (i < length values)%nat ->
     let size := (windowEnd (length values) i W - windowStart i W)%nat in
     (Z.of_nat size <= 2 * (W / 2) + 1)%Z
     /\ ((W / 2 <= Z.of_nat i)%Z ->
         (Z.of_nat i + W / 2 < Z.of_nat (length values))%Z ->
         Z.of_nat size = (2 * (W / 2) + 1)%Z))
  /\ (Z.even W = true ->
      smoothSignal values W = smoothSignal values (W + 1)).
Proof.
  intros HW.
  assert (Hhalf : (1 <= W / 2)%Z).
  { apply Z.div_le_lower_bound; lia. }
  split.
  - intros i Hi size. unfold size, windowStart, windowEnd. lia.
  - intros Heven. apply smoothSignal_half; try lia.
    apply Z.even_spec in Heven. destruct Heven as [k ->].
    rewrite (Z.mul_comm 2 k), Z.div_mul by lia.
    rewrite Z.div_add_l by lia. change (1 / 2)%Z with 0%Z. lia.
Qed.

(** Windows of 4 and of 5 on six samples. *)
Lemma smoothing_window_width_witness :
  smoothSignal [1; 2; 4; 8; 16; 32] 4 = smoothSignal [1; 2; 4; 8; 16; 32] 5.
Proof.
  exact (proj2 (smoothing_window_width [1; 2; 4; 8; 16; 32] 4 ltac:(lia))
               ltac:(reflexivity)).
Defined.

(** ** The baseline *)

(** [X7] The tail of the baseline.  The baseline estimate is the mean of a
    suffix of the smoothed series that holds at least its last ten samples;
    with ten samples or fewer it is the mean of the whole series. *)
Theorem baseline_tail (u_processed : list float) :
  (exists k,
     (k + Nat.min (length u_processed) 10 <= length u_processed)%nat
     /\ tailMean u_processed = windowMean (skipn k u_processed))
  /\ ((length u_processed <= 10)%nat ->
      tailMean u_processed = windowMean u_processed).
Proof.
  unfold tailMean, windowMean, JS.sliceLast.
  set (count := Z.to_nat (Z.max _ 10)).
  assert (Hcount : (10 <= count)%nat) by (unfold count; lia).
  split.
  - exists (length u_processed - count)%nat. split; [lia|reflexivity].
  - intros Hlen. replace (length u_processed - count)%nat with 0%nat by lia.
    reflexivity.
Qed.
